(** * The checks controller of sensu-go's API daemon

    A shallow embedding of [backend/apid/controllers/checks.go]: the
    route table [Register], the collection handler [many], the
    single-resource handler [single] and the in-place filter
    [rejectChecks], followed by the properties of the controller.

    The handlers talk to three collaborators that live outside the
    controller: the store ([store.Store]), the abilities derived from the
    request context ([authorization.Checks.WithContext]) and the response
    writer ([http.ResponseWriter]).  Every call a handler makes on one of
    them is recorded, in program order, in a trace; the store is threaded
    through as explicit state. *)

From Stdlib Require Import Ascii String List ZArith Bool Lia.
Import ListNotations.
Open Scope string_scope.
Open Scope list_scope.
Open Scope Z_scope.

Set Implicit Arguments.

(** ** Data *)

(** [err.Error()]: an error is carried by its message. *)
Definition error := string.

(** Modelled from the spec: [types.CheckConfig] is declared in the
    [types] package, outside the controller.  A resource is a named record
    with an opaque, user-supplied payload; the name is its identity and
    the store key. *)
Record CheckConfig : Type := mkCheckConfig {
  Name : string;
  Payload : string
}.

(** The outcome of a call with Go's [(value, error)] result of which the
    caller only looks at the value when the error is [nil]. *)
Inductive result (A : Type) : Type :=
| Ok (a : A)
| Err (e : error).
Arguments Ok {A} a.
Arguments Err {A} e.

(** [net/http] method names and status codes used by the controller. *)
Definition MethodGet := "GET".
Definition MethodPost := "POST".
Definition MethodPut := "PUT".
Definition MethodDelete := "DELETE".

Definition StatusBadRequest : Z := 400.
Definition StatusInternalServerError : Z := 500.

(** The request as a handler sees it: the method, the route variables
    [mux.Vars(r)] and what [ioutil.ReadAll(r.Body)] yields. *)
Record Request : Type := mkRequest {
  Method : string;
  Vars : list (string * string);
  Body : result string
}.

(** [v, _ := vars[key]]: a missing key reads as the empty string. *)
Fixpoint lookupVar (vars : list (string * string)) (key : string) : string :=
  match vars with
  | [] => ""
  | (k, v) :: rest => if (k =? key)%string then v else lookupVar rest key
  end.

(** The abilities of the caller, [authorization.Checks.WithContext(ctx)]. *)
Record Abilities : Type := mkAbilities {
  CanList : bool;
  CanRead : CheckConfig -> bool;
  CanCreate : CheckConfig -> bool;
  CanUpdate : CheckConfig -> bool;
  CanDelete : bool
}.

(** The store interface the controller consumes.  Each operation may
    change the backend's state and may fail. *)
Class Store (S : Type) : Type := {
  GetCheckConfigs : S -> result (list CheckConfig) * S;
  GetCheckConfigByName : S -> string -> result (option CheckConfig) * S;
  UpdateCheckConfig : S -> CheckConfig -> option error * S;
  DeleteCheckConfigByName : S -> string -> option error * S
}.

(** ** Traces *)

(** One entry per call on a collaborator. *)
Inductive Event : Type :=
| AskCanList (answer : bool)
| AskCanRead (check : CheckConfig) (answer : bool)
| AskCanCreate (check : CheckConfig) (answer : bool)
| AskCanUpdate (check : CheckConfig) (answer : bool)
| AskCanDelete (answer : bool)
| CallGetCheckConfigs
| CallGetCheckConfigByName (name : string)
| CallUpdateCheckConfig (check : CheckConfig)
| CallDeleteCheckConfigByName (name : string)
| UnauthorizedAccessToResource
| HttpError (msg : error) (code : Z)
| HttpNotFound
| HeaderSet (key value : string)
| Fprintf (format : string).

Definition isCapability (e : Event) : bool :=
  match e with
  | AskCanList _ | AskCanRead _ _ | AskCanCreate _ _
  | AskCanUpdate _ _ | AskCanDelete _ => true
  | _ => false
  end.

(** A capability query that was answered with "no". *)
Definition isDenial (e : Event) : bool :=
  match e with
  | AskCanList false | AskCanRead _ false | AskCanCreate _ false
  | AskCanUpdate _ false | AskCanDelete false => true
  | _ => false
  end.

Definition isStoreCall (e : Event) : bool :=
  match e with
  | CallGetCheckConfigs | CallGetCheckConfigByName _
  | CallUpdateCheckConfig _ | CallDeleteCheckConfigByName _ => true
  | _ => false
  end.

Definition isStoreWrite (e : Event) : bool :=
  match e with
  | CallUpdateCheckConfig _ | CallDeleteCheckConfigByName _ => true
  | _ => false
  end.

Definition isLookup (e : Event) : bool :=
  match e with
  | CallGetCheckConfigByName _ => true
  | _ => false
  end.

Definition setsContentType (e : Event) : bool :=
  match e with
  | HeaderSet k _ => (k =? "Content-Type")%string
  | _ => false
  end.

Definition isUpdateQuery (e : Event) : bool :=
  match e with
  | AskCanUpdate _ _ => true
  | _ => false
  end.

Definition isNotFound (e : Event) : bool :=
  match e with
  | HttpNotFound => true
  | _ => false
  end.

(** The DELETE contract in the words of the specification: the
    controller makes no existence check of its own, and the request is
    never answered with 404. *)
Definition deletesWithoutExistenceCheck (t : list Event) : Prop :=
  existsb isLookup t = false /\ existsb isNotFound t = false.

(** ** The handler monad *)

(** What a handler carries along: the store and the trace so far. *)
Record World (S : Type) : Type := mkWorld {
  store : S;
  trace : list Event
}.

(** How a statement ends: control goes on to the next statement, the
    handler executes [return], or the runtime panics. *)
Inductive Flow (A : Type) : Type :=
| Next (a : A)
| Return
| Panic.
Arguments Next {A} a.
Arguments Return {A}.
Arguments Panic {A}.

Definition H (S A : Type) : Type := World S -> Flow A * World S.

Definition ret {S A} (a : A) : H S A := fun w => (Next a, w).

Definition bind {S A B} (m : H S A) (k : A -> H S B) : H S B :=
  fun w =>
    match m w with
    | (Next a, w') => k a w'
    | (Return, w') => (Return, w')
    | (Panic, w') => (Panic, w')
    end.

Definition return_ {S A} : H S A := fun w => (Return, w).
Definition panic {S A} : H S A := fun w => (Panic, w).

Definition emit {S} (e : Event) : H S unit :=
  fun w => (Next tt, {| store := store w; trace := trace w ++ [e] |}).

Declare Scope handler_scope.
Delimit Scope handler_scope with handler.
Notation "x <- m ;; k" := (bind m (fun x => k))
  (at level 61, m at next level, right associativity) : handler_scope.
Notation "m ;; k" := (bind m (fun _ => k))
  (at level 61, right associativity) : handler_scope.
Open Scope handler_scope.

(** Runs a handler against a store, from an empty trace. *)
Definition exec {S A} (h : H S A) (s : S) : Flow A * World S :=
  h {| store := s; trace := [] |}.

(** ** [rejectChecks] *)

Section RejectChecks.

(** The predicate is a Go function value: besides answering, it may act
    on some state [T] of its own. *)
Variable T : Type.
Variable predicate : CheckConfig -> T -> bool * T.

(** The loop of [rejectChecks], one iteration per unit of fuel, on the
    slice [records] and the cursor [i].  Removing the element at [i] is
    [append(records[:i], records[i+1:]...)], after which [i--] and the
    loop's own [i++] leave the cursor in place.  [None] stands for an
    index out of range or for fuel that ran out. *)
Fixpoint rejectChecks_loop (fuel : nat) (records : list CheckConfig)
         (i : Z) (t : T) : option (list CheckConfig * T) :=
  match fuel with
  | O => None
  | S fuel' =>
      if i <? Z.of_nat (length records) then
        match nth_error records (Z.to_nat i) with
        | None => None
        | Some r =>
            let (keep, t') := predicate r t in
            if negb keep then
              let records' :=
                firstn (Z.to_nat i) records
                  ++ skipn (Z.to_nat (i + 1)) records in
              rejectChecks_loop fuel' records' (i - 1 + 1) t'
            else
              rejectChecks_loop fuel' records (i + 1) t'
        end
      else Some (records, t)
  end.

Definition rejectChecks (records : list CheckConfig) (t : T)
  : option (list CheckConfig * T) :=
  rejectChecks_loop (S (length records)) records 0 t.

(** The filter written by recursion on the list: every element is put
    to the predicate once, front to back, and kept when it passes. *)
Fixpoint filterS (records : list CheckConfig) (t : T)
  : list CheckConfig * T :=
  match records with
  | [] => ([], t)
  | r :: rest =>
      let (keep, t') := predicate r t in
      let (kept, t'') := filterS rest t' in
      (if keep then r :: kept else kept, t'')
  end.

End RejectChecks.

(** ** The controller *)

Section Controller.

Context {S : Type} `{Store S}.

(** The collaborators from [encoding/json] and [types]:
    [json.Marshal] on one check and on a slice of checks, giving the
    bytes and the error as Go returns them; [json.Unmarshal] into a
    fresh [CheckConfig]; and the resource's own [Validate]. *)
Variable json_Marshal_check : CheckConfig -> string * option error.
Variable json_Marshal_checks : list CheckConfig -> string * option error.
Variable json_Unmarshal : string -> result CheckConfig.
Variable Validate : CheckConfig -> option error.

(** Calls on the store, recorded in the trace. *)
Definition storeGetCheckConfigs : H S (result (list CheckConfig)) :=
  fun w =>
    let (r, s') := GetCheckConfigs (store w) in
    (Next r, {| store := s'; trace := trace w ++ [CallGetCheckConfigs] |}).

Definition storeGetCheckConfigByName (name : string)
  : H S (result (option CheckConfig)) :=
  fun w =>
    let (r, s') := GetCheckConfigByName (store w) name in
    (Next r, {| store := s';
                trace := trace w ++ [CallGetCheckConfigByName name] |}).

Definition storeUpdateCheckConfig (check : CheckConfig)
  : H S (option error) :=
  fun w =>
    let (r, s') := UpdateCheckConfig (store w) check in
    (Next r, {| store := s';
                trace := trace w ++ [CallUpdateCheckConfig check] |}).

Definition storeDeleteCheckConfigByName (name : string)
  : H S (option error) :=
  fun w =>
    let (r, s') := DeleteCheckConfigByName (store w) name in
    (Next r, {| store := s';
                trace := trace w ++ [CallDeleteCheckConfigByName name] |}).

(** Queries to the abilities, recorded with their answer. *)
Definition askCanList (abilities : Abilities) : H S bool :=
  emit (AskCanList (CanList abilities)) ;; ret (CanList abilities).

Definition askCanDelete (abilities : Abilities) : H S bool :=
  emit (AskCanDelete (CanDelete abilities)) ;; ret (CanDelete abilities).

Definition askCanRead (abilities : Abilities) (check : CheckConfig)
  : H S bool :=
  emit (AskCanRead check (CanRead abilities check)) ;;
  ret (CanRead abilities check).

Definition askCanCreate (abilities : Abilities) (check : CheckConfig)
  : H S bool :=
  emit (AskCanCreate check (CanCreate abilities check)) ;;
  ret (CanCreate abilities check).

Definition askCanUpdate (abilities : Abilities) (check : CheckConfig)
  : H S bool :=
  emit (AskCanUpdate check (CanUpdate abilities check)) ;;
  ret (CanUpdate abilities check).

(** [abilities.CanRead] as the function value handed to
    [rejectChecks]. *)
Definition canReadPredicate (abilities : Abilities) (check : CheckConfig)
           (w : World S) : bool * World S :=
  (CanRead abilities check,
   {| store := store w;
      trace := trace w ++ [AskCanRead check (CanRead abilities check)] |}).

(** [rejectChecks(&checks, abilities.CanRead)] inside a handler. *)
Definition rejectChecksH (abilities : Abilities)
           (checks : list CheckConfig) : H S (list CheckConfig) :=
  fun w =>
    match rejectChecks (canReadPredicate abilities) checks w with
    | Some (checks', w') => (Next checks', w')
    | None => (Panic, w)
    end.

(** [many] handles requests to /checks. *)
Definition many (abilities : Abilities) (r : Request) : H S unit :=
  denied <- (if (Method r =? MethodGet)%string
             then can <- askCanList abilities ;; ret (negb can)
             else ret false) ;;
  (if denied : bool
   then emit UnauthorizedAccessToResource ;; return_
   else ret tt) ;;
  res <- storeGetCheckConfigs ;;
  match res with
  | Err e => emit (HttpError e StatusInternalServerError) ;; return_
  | Ok checks =>
      checks' <- rejectChecksH abilities checks ;;
      let (checksBytes, err) := json_Marshal_checks checks' in
      match err with
      | Some e => emit (HttpError e StatusInternalServerError)
      | None => ret tt
      end ;;
      emit (HeaderSet "Content-Type" "application/json") ;;
      emit (Fprintf checksBytes)
  end.

(** The body of [case http.MethodPut, http.MethodPost] in [single];
    [check] is the handler's variable of that name. *)
Definition upsert (abilities : Abilities) (r : Request)
           (check : option CheckConfig) : H S unit :=
  match Body r with
  | Err e => emit (HttpError e StatusInternalServerError) ;; return_
  | Ok bodyBytes =>
      match json_Unmarshal bodyBytes with
      | Err e => emit (HttpError e StatusBadRequest) ;; return_
      | Ok newCheck =>
          match Validate newCheck with
          | Some e => emit (HttpError e StatusBadRequest) ;; return_
          | None =>
              case1 <- match check with
                       | None =>
                           can <- askCanCreate abilities newCheck ;;
                           ret (negb can)
                       | Some _ => ret false
                       end ;;
              (if case1 : bool
               then emit UnauthorizedAccessToResource ;; return_
               else ret tt) ;;
              case2 <- match check with
                       | Some _ =>
                           can <- askCanUpdate abilities newCheck ;;
                           ret (negb can)
                       | None => ret false
                       end ;;
              (if case2 : bool
               then emit UnauthorizedAccessToResource ;; return_
               else ret tt) ;;
              err <- storeUpdateCheckConfig newCheck ;;
              match err with
              | Some e =>
                  emit (HttpError e StatusInternalServerError) ;; return_
              | None => return_
              end
          end
      end
  end.

(** [single] handles requests to /checks/:name. *)
Definition single (abilities : Abilities) (r : Request) : H S unit :=
  let name := lookupVar (Vars r) "name" in
  let method := Method r in
  denied <- (if (Method r =? MethodDelete)%string
             then can <- askCanDelete abilities ;; ret (negb can)
             else ret false) ;;
  (if denied : bool
   then emit UnauthorizedAccessToResource ;; return_
   else ret tt) ;;
  check <- (if (method =? MethodGet)%string
               || (method =? MethodDelete)%string
            then
              res <- storeGetCheckConfigByName name ;;
              match res with
              | Err e =>
                  emit (HttpError e StatusInternalServerError) ;; return_
              | Ok None => emit HttpNotFound ;; return_
              | Ok (Some found) => ret (Some found)
              end
            else ret None) ;;
  if (Method r =? MethodGet)%string then
    match check with
    | None => panic (* not reached: the lookup above returned on nil *)
    | Some found =>
        let (checkBytes, err) := json_Marshal_check found in
        match err with
        | Some e =>
            emit (HttpError e StatusInternalServerError) ;; return_
        | None =>
            can <- askCanRead abilities found ;;
            (if negb can
             then emit UnauthorizedAccessToResource ;; return_
             else ret tt) ;;
            emit (Fprintf checkBytes)
        end
    end
  else if (Method r =? MethodPut)%string || (Method r =? MethodPost)%string
  then upsert abilities r check
  else if (Method r =? MethodDelete)%string then
    err <- storeDeleteCheckConfigByName name ;;
    match err with
    | Some e => emit (HttpError e StatusInternalServerError) ;; return_
    | None => return_
    end
  else ret tt.

(** The two URL patterns of the controller, as matched by the router;
    a request to [/checks/{name}] carries the route variable [name]. *)
Inductive Path : Type :=
| Checks
| ChecksName (name : string).

(** [Register]: which handler serves a method on a path, and the
    request it is given.  [None] is a request no route matches. *)
Definition Register (abilities : Abilities) (path : Path)
           (method : string) (body : result string) : option (H S unit) :=
  match path with
  | Checks =>
      if (method =? MethodGet)%string
      then Some (many abilities (mkRequest method [] body))
      else if (method =? MethodPost)%string
      then Some (single abilities (mkRequest method [] body))
      else None
  | ChecksName name =>
      if (method =? MethodGet)%string || (method =? MethodPut)%string
         || (method =? MethodPost)%string || (method =? MethodDelete)%string
      then Some (single abilities (mkRequest method [("name", name)] body))
      else None
  end.

End Controller.

(** ** An in-memory store and a toy codec, for concrete runs *)

(** Modelled from the spec: the store backend is outside the controller.
    This one keeps the checks in a list, keyed by name, in insertion
    order, and never fails. *)
Definition MemStore : Type := list CheckConfig.

Definition hasName (name : string) (c : CheckConfig) : bool :=
  (Name c =? name)%string.

Fixpoint memUpsert (c : CheckConfig) (s : MemStore) : MemStore :=
  match s with
  | [] => [c]
  | c' :: rest => if hasName (Name c) c' then c :: rest
                  else c' :: memUpsert c rest
  end.

#[export] Instance MemStore_Store : Store MemStore := {
  GetCheckConfigs s := (Ok s, s);
  GetCheckConfigByName s name := (Ok (find (hasName name) s), s);
  UpdateCheckConfig s c := (None, memUpsert c s);
  DeleteCheckConfigByName s name :=
    (None, filter (fun c => negb (hasName name c)) s)
}.

(** A backend that is down: every operation fails. *)
Inductive DownStore : Type := Down.

#[export] Instance DownStore_Store : Store DownStore := {
  GetCheckConfigs s := (Err "store unavailable", s);
  GetCheckConfigByName s _ := (Err "store unavailable", s);
  UpdateCheckConfig s _ := (Some "store unavailable", s);
  DeleteCheckConfigByName s _ := (Some "store unavailable", s)
}.

(** A toy wire format: a check is written as its name.  The empty body
    does not decode; a body that starts with an exclamation mark decodes
    to a check that fails its validation; any other body is the name of
    a valid check. *)
Definition toyMarshal_check (c : CheckConfig) : string * option error :=
  (Name c, None).

Definition toyMarshal_checks (cs : list CheckConfig) : string * option error :=
  (String.concat "," (map Name cs), None).

Definition toyUnmarshal (body : string) : result CheckConfig :=
  match body with
  | EmptyString => Err "unexpected end of JSON input"
  | String "!"%char rest => Ok {| Name := rest; Payload := "invalid" |}
  | _ => Ok {| Name := body; Payload := "" |}
  end.

Definition toyValidate (c : CheckConfig) : option error :=
  if (Payload c =? "invalid")%string then Some "check is invalid" else None.

(** A serializer that fails on every collection. *)
Definition failingMarshal_checks (cs : list CheckConfig)
  : string * option error :=
  ("", Some "json: unsupported value").

(** Abilities that grant everything, and abilities that grant nothing. *)
Definition allowAll : Abilities :=
  {| CanList := true; CanRead := fun _ => true; CanCreate := fun _ => true;
     CanUpdate := fun _ => true; CanDelete := true |}.

Definition denyAll : Abilities :=
  {| CanList := false; CanRead := fun _ => false; CanCreate := fun _ => false;
     CanUpdate := fun _ => false; CanDelete := false |}.

Definition check_a : CheckConfig := {| Name := "a"; Payload := "" |}.
Definition check_b : CheckConfig := {| Name := "b"; Payload := "" |}.
Definition check_c : CheckConfig := {| Name := "c"; Payload := "" |}.
Definition check_y : CheckConfig := {| Name := "y"; Payload := "" |}.

(** Abilities that grant everything but update. *)
Definition allButUpdate : Abilities :=
  {| CanList := true; CanRead := fun _ => true; CanCreate := fun _ => true;
     CanUpdate := fun _ => false; CanDelete := true |}.

Definition check_y_old : CheckConfig := {| Name := "y"; Payload := "old" |}.
Definition check_x : CheckConfig := {| Name := "x"; Payload := "" |}.

(** Requests as the handlers receive them. *)
Definition get_ (name : string) : Request :=
  {| Method := MethodGet; Vars := [("name", name)]; Body := Ok "" |}.
Definition put_ (name body : string) : Request :=
  {| Method := MethodPut; Vars := [("name", name)]; Body := Ok body |}.
Definition delete_ (name : string) : Request :=
  {| Method := MethodDelete; Vars := [("name", name)]; Body := Ok "" |}.
Definition list_ : Request :=
  {| Method := MethodGet; Vars := []; Body := Ok "" |}.

(** The handlers wired to the toy codec. *)
Definition toyMany {S} `{Store S} := many (S := S) toyMarshal_checks.
Definition toySingle {S} `{Store S} :=
  single (S := S) toyMarshal_check toyUnmarshal toyValidate.

(** One request served through the route table with the toy codec: the
    flow, the store and the trace at the end, or [None] when no route
    matches. *)
Definition toyServe {S} `{Store S} (abilities : Abilities) (path : Path)
           (method : string) (body : result string) (s : S)
  : option (Flow unit * World S) :=
  option_map (fun h => exec h s)
             (Register toyMarshal_check toyMarshal_checks toyUnmarshal
                       toyValidate abilities path method body).

(** ** More classifiers of trace entries *)

(** A call on the response writer: a status with its text, a header or
    a body. *)
Definition isResponseCall (e : Event) : bool :=
  match e with
  | UnauthorizedAccessToResource | HttpError _ _ | HttpNotFound
  | HeaderSet _ _ | Fprintf _ => true
  | _ => false
  end.

(** ** The [update] command of the handler CLI *)

(** [cli/commands/handler/update.go].  The command talks to the API
    client ([cli.Client]), to the terminal (the questionnaire, the help
    text and the final line) and to the handler options of the package;
    what it does to the outside is recorded in program order. *)
Inductive CliEvent (Handler : Type) : Type :=
| CmdHelp
| ClientFetchHandler (name : string)
| AdministerQuestionnaire (editing : bool)
| ClientCreateHandler (handler : Handler)
| Fprintln (line : string).
Arguments CmdHelp {Handler}.
Arguments ClientFetchHandler {Handler} name.
Arguments AdministerQuestionnaire {Handler} editing.
Arguments ClientCreateHandler {Handler} handler.
Arguments Fprintln {Handler} line.

Definition isCreateCall {Handler} (e : CliEvent Handler) : bool :=
  match e with
  | ClientCreateHandler _ => true
  | _ => false
  end.

(** The two operations of the API client the command uses. *)
Class Client (A Handler : Type) : Type := {
  FetchHandler : A -> string -> result Handler * A;
  CreateHandler : A -> Handler -> option error * A
}.

(** The API behind the client and what the command has done so far. *)
Record CliWorld (A Handler : Type) : Type := mkCliWorld {
  client : A;
  out : list (CliEvent Handler)
}.

(** The fields of [cobra.Command] that [UpdateCommand] fills in. *)
Record Command (A Handler : Type) : Type := mkCommand {
  Use : string;
  Short : string;
  SilenceUsage : bool;
  RunE : list string -> CliWorld A Handler
         -> option error * CliWorld A Handler
}.

Section UpdateCommand.

Context {A Handler : Type} `{Client A Handler}.

(** The handler options of the package and the handler's validation,
    which live in other files: [newHandlerOpts()], [opts.withHandler],
    [opts.administerQuestionnaire] with the answers typed in,
    [opts.Copy] and [handler.Validate]. *)
Variable Opts : Type.
Variable newHandlerOpts : Opts.
Variable withHandler : Opts -> Handler -> Opts.
Variable administerQuestionnaire : Opts -> bool -> option error * Opts.
Variable Copy : Opts -> Handler -> Handler.
Variable ValidateHandler : Handler -> option error.

Definition record_ (e : CliEvent Handler) (w : CliWorld A Handler)
  : CliWorld A Handler :=
  {| client := client w; out := out w ++ [e] |}.

(** The [RunE] closure of the command. *)
Definition UpdateCommand_RunE (args : list string) (w : CliWorld A Handler)
  : option error * CliWorld A Handler :=
  if negb (length args =? 1)%nat then
    (None, record_ CmdHelp w)
  else
    let handlerName := nth 0 args "" in
    let (fetched, a1) := FetchHandler (client w) handlerName in
    let w1 := {| client := a1;
                 out := out w ++ [ClientFetchHandler handlerName] |} in
    match fetched with
    | Err e => (Some e, w1)
    | Ok handler =>
        let opts := withHandler newHandlerOpts handler in
        let (asked, opts') := administerQuestionnaire opts true in
        let w2 := record_ (AdministerQuestionnaire true) w1 in
        match asked with
        | Some e => (Some e, w2)
        | None =>
            let handler' := Copy opts' handler in
            match ValidateHandler handler' with
            | Some e => (Some e, w2)
            | None =>
                let (created, a3) := CreateHandler (client w2) handler' in
                let w3 := {| client := a3;
                             out := out w2
                                    ++ [ClientCreateHandler handler'] |} in
                match created with
                | Some e => (Some e, w3)
                | None => (None, record_ (Fprintln "OK") w3)
                end
            end
        end
    end.

(** [UpdateCommand] allows the user to update handlers. *)
Definition UpdateCommand : Command A Handler :=
  {| Use := "update NAME";
     Short := "update handlers";
     SilenceUsage := false;
     RunE := UpdateCommand_RunE |}.

End UpdateCommand.

(** A toy API for concrete runs of the command: a handler is a name and
    a command line; the API keeps a list of handlers, fetches by name and
    refuses to store a handler named ["locked"]. *)
Definition ToyHandler : Type := (string * string)%type.
Definition ToyApi : Type := list ToyHandler.

#[export] Instance ToyApi_Client : Client ToyApi ToyHandler := {
  FetchHandler a name :=
    match find (fun h => (fst h =? name)%string) a with
    | Some h => (Ok h, a)
    | None => (Err "not found", a)
    end;
  CreateHandler a h :=
    if (fst h =? "locked")%string then (Some "forbidden", a)
    else (None, h :: filter (fun h' => negb (fst h' =? fst h)%string) a)
}.

(** Toy options: the command line being edited.  The questionnaire
    appends an option to it, and gives up on the command line ["quit"];
    a handler is valid when its command line is more than that option. *)
Definition toyWithHandler (o : string) (h : ToyHandler) : string := snd h.
Definition toyQuestionnaire (o : string) (editing : bool)
  : option error * string :=
  if (o =? "quit")%string then (Some "interrupted", o)
  else (None, (o ++ " -v")%string).
Definition toyCopy (o : string) (h : ToyHandler) : ToyHandler := (fst h, o).
Definition toyValidateHandler (h : ToyHandler) : option error :=
  if (snd h =? " -v")%string then Some "command must be set" else None.

Definition toyUpdate : Command ToyApi ToyHandler :=
  UpdateCommand "" toyWithHandler toyQuestionnaire toyCopy toyValidateHandler.

Definition toyApi : ToyApi :=
  [("mail", "sendmail"); ("locked", "true"); ("idle", "quit"); ("blank", "")].

Definition toyStart : CliWorld ToyApi ToyHandler :=
  {| client := toyApi; out := [] |}.

(** Abilities that let the caller read every check but b. *)
Definition allButReadB : Abilities :=
  {| CanList := true; CanRead := fun c => negb (hasName "b" c);
     CanCreate := fun _ => true; CanUpdate := fun _ => true;
     CanDelete := true |}.

Definition post_ (body : string) : Request :=
  {| Method := MethodPost; Vars := []; Body := Ok body |}.

(** * Properties *)

(** ** The filter *)

Section RejectChecksFacts.

Variable T : Type.
Variable predicate : CheckConfig -> T -> bool * T.

Lemma nth_error_middle (kept rest : list CheckConfig) (r : CheckConfig) :
  nth_error (kept ++ r :: rest) (length kept) = Some r.
Proof.
  induction kept as [|k kept IH]; simpl; auto.
Qed.

Lemma firstn_prefix (kept rest : list CheckConfig) :
  firstn (length kept) (kept ++ rest) = kept.
Proof.
  induction kept as [|k kept IH]; simpl.
  - destruct rest; reflexivity.
  - now rewrite IH.
Qed.

Lemma skipn_past (kept rest : list CheckConfig) (r : CheckConfig) :
  skipn (S (length kept)) (kept ++ r :: rest) = rest.
Proof.
  induction kept as [|k kept IH]; simpl; auto.
Qed.

(** The loop invariant: with the cursor standing behind the elements
    already kept, the loop finishes the scan of the remainder within
    one unit of fuel per remaining element, plus one for the exit. *)
Lemma rejectChecks_loop_scan (rest : list CheckConfig) :
  forall (fuel : nat) (kept : list CheckConfig) (t : T),
    (length rest < fuel)%nat ->
    rejectChecks_loop predicate fuel (kept ++ rest) (Z.of_nat (length kept)) t
    = Some (kept ++ fst (filterS predicate rest t), snd (filterS predicate rest t)).
Proof.
  induction rest as [|r rest IH]; intros fuel kept t Hfuel.
  - destruct fuel as [|fuel]; [simpl in Hfuel; lia|].
    simpl. rewrite app_nil_r.
    replace (Z.of_nat (length kept) <? Z.of_nat (length kept)) with false
      by (symmetry; apply Z.ltb_ge; lia).
    reflexivity.
  - destruct fuel as [|fuel]; [simpl in Hfuel; lia|].
    simpl in Hfuel.
    cbn [rejectChecks_loop filterS].
    replace (Z.of_nat (length kept) <? Z.of_nat (length (kept ++ r :: rest)))
      with true
      by (symmetry; apply Z.ltb_lt; rewrite length_app; simpl; lia).
    rewrite Nat2Z.id, nth_error_middle.
    destruct (predicate r t) as [keep t'] eqn:Hp.
    destruct (filterS predicate rest t') as [kept' t''] eqn:Hf.
    destruct keep; cbn [negb fst snd].
    + replace (kept ++ r :: rest) with ((kept ++ [r]) ++ rest)
        by (rewrite <- app_assoc; reflexivity).
      replace (Z.of_nat (length kept) + 1)
        with (Z.of_nat (length (kept ++ [r])))
        by (rewrite length_app; simpl; lia).
      rewrite IH by lia. rewrite Hf. cbn [fst snd].
      rewrite <- app_assoc. reflexivity.
    + replace (Z.to_nat (Z.of_nat (length kept) + 1)) with (S (length kept))
        by lia.
      rewrite firstn_prefix, skipn_past.
      replace (Z.of_nat (length kept) - 1 + 1) with (Z.of_nat (length kept))
        by lia.
      rewrite IH by lia. rewrite Hf. reflexivity.
Qed.

Lemma rejectChecks_filterS (records : list CheckConfig) (t : T) :
  rejectChecks predicate records t = Some (filterS predicate records t).
Proof.
  unfold rejectChecks.
  pose proof (rejectChecks_loop_scan records (fuel := S (length records))
                [] t (Nat.lt_succ_diag_r _)) as Hscan.
  simpl in Hscan. simpl. rewrite Hscan.
  now destruct (filterS predicate records t).
Qed.

End RejectChecksFacts.

(** C3.  For every list of resources and every predicate, [rejectChecks]
    returns, and what it leaves in the slice is exactly the sublist of
    the elements on which the predicate holds, in their original order:
    nothing is left out and nothing appears twice, also when neighbouring
    elements fail.  The predicate is put to each element once, front to
    back ([step] is whatever else the predicate does on a call). *)
Theorem rejectChecks_is_filter (T : Type) (p : CheckConfig -> bool)
        (step : CheckConfig -> T -> T) (records : list CheckConfig) (t : T) :
  rejectChecks (fun r t => (p r, step r t)) records t
  = Some (filter p records, fold_left (fun t r => step r t) records t).
Proof.
  rewrite rejectChecks_filterS. f_equal.
  revert t. induction records as [|r rest IH]; intros t; simpl.
  - reflexivity.
  - specialize (IH (step r t)).
    destruct (filterS (fun r t => (p r, step r t)) rest (step r t))
      as [kept t'].
    inversion IH; subst. now destruct (p r).
Qed.

(** Scenario A of the specification, and a run of failing neighbours. *)
Example rejectChecks_scenario_A :
  rejectChecks (fun r (t : unit) => (negb (hasName "b" r), t))
               [check_a; check_b; check_c] tt
  = Some ([check_a; check_c], tt).
Proof. reflexivity. Qed.

Example rejectChecks_adjacent_failures :
  rejectChecks (fun r (t : unit) => (hasName "c" r, t))
               [check_a; check_b; check_b; check_c; check_a] tt
  = Some ([check_c], tt).
Proof. reflexivity. Qed.

(** ** The handlers *)

Ltac step_handler :=
  unfold exec, bind, ret, return_, emit, askCanList, askCanDelete,
    askCanRead, askCanCreate, askCanUpdate, storeGetCheckConfigs,
    storeGetCheckConfigByName, storeUpdateCheckConfig,
    storeDeleteCheckConfigByName; cbn.

Section ControllerFacts.

Context {S : Type} `{Store S}.

Variable json_Marshal_check : CheckConfig -> string * option error.
Variable json_Marshal_checks : list CheckConfig -> string * option error.
Variable json_Unmarshal : string -> result CheckConfig.
Variable Validate : CheckConfig -> option error.

Local Abbreviation many := (many json_Marshal_checks).
Local Abbreviation single :=
  (single json_Marshal_check json_Unmarshal Validate).

(** Inside [many], the filter asks [CanRead] about every check the store
    returned, in order, and hands on those the caller may read. *)
Lemma rejectChecksH_filter (abilities : Abilities)
      (checks : list CheckConfig) (w : World S) :
  rejectChecksH abilities checks w
  = (Next (filter (CanRead abilities) checks),
     {| store := store w;
        trace := trace w
                 ++ map (fun c => AskCanRead c (CanRead abilities c)) checks |}).
Proof.
  unfold rejectChecksH, canReadPredicate.
  rewrite (rejectChecks_is_filter (CanRead abilities)
             (fun c w => {| store := store w;
                            trace := trace w
                              ++ [AskCanRead c (CanRead abilities c)] |})).
  f_equal. revert w.
  induction checks as [|c rest IH]; intros w; simpl.
  - rewrite app_nil_r. now destruct w.
  - rewrite IH. simpl. now rewrite <- app_assoc.
Qed.

(** C8.  A GET on the collection by a caller who lacks the list
    capability is answered as unauthorized, and the handler returns
    without a single call on the store: the store is as it was and the
    trace holds the refused query and the refusal only. *)
Theorem many_denied_without_store_access (abilities : Abilities)
        (r : Request) (s : S) :
  Method r = MethodGet ->
  CanList abilities = false ->
  exec (many abilities r) s
  = (Return, {| store := s;
                trace := [AskCanList false; UnauthorizedAccessToResource] |})
  /\ existsb isStoreCall (trace (snd (exec (many abilities r) s))) = false.
Proof.
  intros Hm Hl.
  assert (exec (many abilities r) s
          = (Return, {| store := s;
                        trace := [AskCanList false;
                                  UnauthorizedAccessToResource] |})) as E.
  { unfold many. step_handler. rewrite Hm, Hl. reflexivity. }
  split; [exact E | now rewrite E].
Qed.

(** C6.  An upsert whose body does not decode, or decodes to a resource
    that fails its own validation, is answered with status 400 and the
    handler returns: the trace holds that one answer, so no capability
    was queried and the store was not called, and the store is as it
    was. *)
Theorem invalid_body_stops_upsert (abilities : Abilities) (r : Request)
        (s : S) (bodyBytes : string) (e : error) :
  Method r = MethodPut \/ Method r = MethodPost ->
  Body r = Ok bodyBytes ->
  json_Unmarshal bodyBytes = Err e
  \/ (exists c, json_Unmarshal bodyBytes = Ok c /\ Validate c = Some e) ->
  exec (single abilities r) s
  = (Return, {| store := s; trace := [HttpError e StatusBadRequest] |})
  /\ existsb isCapability (trace (snd (exec (single abilities r) s))) = false
  /\ existsb isStoreCall (trace (snd (exec (single abilities r) s))) = false.
Proof.
  intros Hm Hb Hbad.
  assert (exec (single abilities r) s
          = (Return, {| store := s;
                        trace := [HttpError e StatusBadRequest] |})) as E.
  { unfold single, upsert. step_handler.
    destruct Hm as [Hm | Hm]; rewrite Hm, Hb; cbn;
      destruct Hbad as [Hu | (c & Hu & Hv)]; rewrite Hu; cbn;
      try rewrite Hv; reflexivity. }
  rewrite E. auto.
Qed.


(** The run of an upsert, path by path. *)
Lemma single_upsert_run (abilities : Abilities) (r : Request) (s : S) :
  Method r = MethodPut \/ Method r = MethodPost ->
  exec (single abilities r) s
  = match Body r with
    | Err e =>
        (Return, {| store := s;
                    trace := [HttpError e StatusInternalServerError] |})
    | Ok bodyBytes =>
        match json_Unmarshal bodyBytes with
        | Err e =>
            (Return, {| store := s; trace := [HttpError e StatusBadRequest] |})
        | Ok newCheck =>
            match Validate newCheck with
            | Some e =>
                (Return, {| store := s;
                            trace := [HttpError e StatusBadRequest] |})
            | None =>
                if CanCreate abilities newCheck then
                  (Return,
                   {| store := snd (UpdateCheckConfig s newCheck);
                      trace := [AskCanCreate newCheck true;
                                CallUpdateCheckConfig newCheck]
                               ++ match fst (UpdateCheckConfig s newCheck) with
                                  | Some e =>
                                      [HttpError e StatusInternalServerError]
                                  | None => []
                                  end |})
                else
                  (Return, {| store := s;
                              trace := [AskCanCreate newCheck false;
                                        UnauthorizedAccessToResource] |})
            end
        end
    end.
Proof.
  intros Hm. unfold single, upsert. step_handler.
  destruct Hm as [Hm | Hm]; rewrite Hm; cbn;
    destruct (Body r) as [bodyBytes | e]; cbn; try reflexivity;
    destruct (json_Unmarshal bodyBytes) as [newCheck | e]; cbn;
    try reflexivity;
    destruct (Validate newCheck) as [e|]; cbn; try reflexivity;
    destruct (CanCreate abilities newCheck); cbn; try reflexivity;
    destruct (UpdateCheckConfig s newCheck) as [[e|] s']; reflexivity.
Qed.

(** The run of a DELETE, path by path. *)
Lemma single_delete_run (abilities : Abilities) (r : Request) (s : S) :
  Method r = MethodDelete ->
  let name := lookupVar (Vars r) "name" in
  exec (single abilities r) s
  = if CanDelete abilities then
      match GetCheckConfigByName s name with
      | (Err e, s1) =>
          (Return, {| store := s1;
                      trace := [AskCanDelete true;
                                CallGetCheckConfigByName name;
                                HttpError e StatusInternalServerError] |})
      | (Ok None, s1) =>
          (Return, {| store := s1;
                      trace := [AskCanDelete true;
                                CallGetCheckConfigByName name;
                                HttpNotFound] |})
      | (Ok (Some _), s1) =>
          match DeleteCheckConfigByName s1 name with
          | (Some e, s2) =>
              (Return, {| store := s2;
                          trace := [AskCanDelete true;
                                    CallGetCheckConfigByName name;
                                    CallDeleteCheckConfigByName name;
                                    HttpError e StatusInternalServerError] |})
          | (None, s2) =>
              (Return, {| store := s2;
                          trace := [AskCanDelete true;
                                    CallGetCheckConfigByName name;
                                    CallDeleteCheckConfigByName name] |})
          end
      end
    else
      (Return, {| store := s;
                  trace := [AskCanDelete false;
                            UnauthorizedAccessToResource] |}).
Proof.
  intros Hm name. subst name.
  unfold single. step_handler. rewrite Hm. cbn.
  destruct (CanDelete abilities); cbn; try reflexivity.
  destruct (GetCheckConfigByName s (lookupVar (Vars r) "name"))
    as [[[found|] | e] s1]; cbn; try reflexivity.
  destruct (DeleteCheckConfigByName s1 (lookupVar (Vars r) "name"))
    as [[e|] s2]; reflexivity.
Qed.

(** C10.  The upsert branch does not look at the route variable [name]:
    with the same method and body, any route variables give the same
    run.  A valid body that the caller may create is handed to the
    store's update as decoded, under the name the body carries, whatever
    name the path has. *)
Theorem upsert_ignores_path_name (abilities : Abilities) (r : Request)
        (s : S) :
  Method r = MethodPut \/ Method r = MethodPost ->
  (forall vars',
      exec (single abilities
              {| Method := Method r; Vars := vars'; Body := Body r |}) s
      = exec (single abilities r) s)
  /\ (forall bodyBytes newCheck,
         Body r = Ok bodyBytes ->
         json_Unmarshal bodyBytes = Ok newCheck ->
         Validate newCheck = None ->
         CanCreate abilities newCheck = true ->
         exec (single abilities r) s
         = (Return,
            {| store := snd (UpdateCheckConfig s newCheck);
               trace := [AskCanCreate newCheck true;
                         CallUpdateCheckConfig newCheck]
                        ++ match fst (UpdateCheckConfig s newCheck) with
                           | Some e => [HttpError e StatusInternalServerError]
                           | None => []
                           end |})).
Proof.
  intros Hm. split.
  - intros vars'. destruct r as [method vars body]. cbn in *.
    unfold single. step_handler.
    destruct Hm as [Hm | Hm]; rewrite Hm; reflexivity.
  - intros bodyBytes newCheck Hb Hu Hv Hc.
    rewrite (single_upsert_run abilities r s Hm), Hb, Hu, Hv, Hc.
    reflexivity.
Qed.

(** The order of query and write that [single] does keep.  On an upsert
    or a delete, once a capability query of the handler is answered with
    "no", or the handler answers unauthorized, the run has made no write
    call on the store and the store is as it was before the request.
    Under abilities that grant neither create nor update nor delete, the
    run calls the store not at all.  The queries meant are those the
    handler makes: an upsert never asks for the update capability. *)
Theorem denied_request_does_not_write (abilities : Abilities) (r : Request)
        (s : S) :
  Method r = MethodPut \/ Method r = MethodPost \/ Method r = MethodDelete ->
  let out := exec (single abilities r) s in
  (existsb isDenial (trace (snd out)) = true
   \/ In UnauthorizedAccessToResource (trace (snd out)) ->
   store (snd out) = s /\ existsb isStoreWrite (trace (snd out)) = false)
  /\ (CanDelete abilities = false ->
      (forall c, CanCreate abilities c = false) ->
      (forall c, CanUpdate abilities c = false) ->
      store (snd out) = s /\ existsb isStoreCall (trace (snd out)) = false).
Proof.
  intros Hm out. subst out.
  destruct Hm as [Hm | [Hm | Hm]].
  3: { pose proof (single_delete_run abilities r s Hm) as E. cbn zeta in E.
       rewrite E. clear E.
       destruct (CanDelete abilities).
       - destruct (GetCheckConfigByName s (lookupVar (Vars r) "name"))
           as [[[found|] | e] s1];
           [destruct (DeleteCheckConfigByName s1 (lookupVar (Vars r) "name"))
             as [[e|] s2] | |];
           (split;
            [ intros [Hd | Hin]; [discriminate Hd|];
              cbn in Hin; intuition discriminate
            | intros Hdel; discriminate Hdel ]).
       - split; intros; split; reflexivity. }
  all: rewrite (single_upsert_run abilities r s) by auto.
  all: destruct (Body r) as [bodyBytes | e];
    [destruct (json_Unmarshal bodyBytes) as [newCheck | e];
     [destruct (Validate newCheck) as [e|];
      [| destruct (CanCreate abilities newCheck) eqn:Hc] | ] | ].
  all: split;
    [ intros [Hd | Hin];
      [ try discriminate Hd; try (split; reflexivity);
        destruct (fst (UpdateCheckConfig s newCheck)); discriminate Hd
      | try (split; reflexivity); cbn in Hin;
        destruct (fst (UpdateCheckConfig s newCheck)); cbn in Hin;
        intuition discriminate ]
    | intros Hdel Hcreate Hupdate; try (split; reflexivity);
      rewrite Hcreate in Hc; discriminate Hc ].
Qed.

(** C2, as the code has it.  A DELETE that passes the delete capability
    looks the name up before it deletes: a failing lookup is answered
    with 500, a name the store does not have with 404 and without a
    delete call, and only for a name the store has does the handler call
    the store's delete, whose failure is answered with 500. *)
Theorem delete_looks_up_first (abilities : Abilities) (r : Request) (s : S) :
  Method r = MethodDelete ->
  CanDelete abilities = true ->
  let name := lookupVar (Vars r) "name" in
  exec (single abilities r) s
  = match GetCheckConfigByName s name with
    | (Err e, s1) =>
        (Return, {| store := s1;
                    trace := [AskCanDelete true;
                              CallGetCheckConfigByName name;
                              HttpError e StatusInternalServerError] |})
    | (Ok None, s1) =>
        (Return, {| store := s1;
                    trace := [AskCanDelete true;
                              CallGetCheckConfigByName name;
                              HttpNotFound] |})
    | (Ok (Some _), s1) =>
        match DeleteCheckConfigByName s1 name with
        | (Some e, s2) =>
            (Return, {| store := s2;
                        trace := [AskCanDelete true;
                                  CallGetCheckConfigByName name;
                                  CallDeleteCheckConfigByName name;
                                  HttpError e StatusInternalServerError] |})
        | (None, s2) =>
            (Return, {| store := s2;
                        trace := [AskCanDelete true;
                                  CallGetCheckConfigByName name;
                                  CallDeleteCheckConfigByName name] |})
        end
    end.
Proof.
  intros Hm Hdel name. subst name.
  pose proof (single_delete_run abilities r s Hm) as E. cbn zeta in E.
  rewrite E, Hdel. reflexivity.
Qed.

(** C4, as the code has it.  When the serialization of the filtered
    collection fails, [many] answers with status 500 and then goes on: it
    sets the Content-Type header and calls [Fprintf] with the bytes the
    serializer returned, and falls off the end of the handler instead of
    returning at the error. *)
Theorem many_goes_on_after_marshal_error (abilities : Abilities)
        (r : Request) (s s' : S) (checks : list CheckConfig)
        (checksBytes : string) (e : error) :
  Method r = MethodGet ->
  CanList abilities = true ->
  GetCheckConfigs s = (Ok checks, s') ->
  json_Marshal_checks (filter (CanRead abilities) checks)
  = (checksBytes, Some e) ->
  exec (many abilities r) s
  = (Next tt,
     {| store := s';
        trace := [AskCanList true; CallGetCheckConfigs]
                 ++ map (fun c => AskCanRead c (CanRead abilities c)) checks
                 ++ [HttpError e StatusInternalServerError;
                     HeaderSet "Content-Type" "application/json";
                     Fprintf checksBytes] |}).
Proof.
  intros Hm Hl Hget Hjson.
  unfold many. step_handler. rewrite Hm, Hl. cbn. rewrite Hget. cbn.
  rewrite rejectChecksH_filter. cbn. rewrite Hjson. cbn.
  repeat rewrite <- app_assoc. reflexivity.
Qed.

(** Neither handler panics: the filter never indexes out of range or
    runs out of fuel, and the GET branch of [single] is only entered with
    a check at hand. *)
Lemma many_never_panics (abilities : Abilities) (r : Request) (s : S) :
  fst (exec (many abilities r) s) <> Panic.
Proof.
  unfold many. step_handler.
  destruct (Method r =? MethodGet)%string; cbn;
    [destruct (CanList abilities); cbn; [|discriminate]|];
    (destruct (GetCheckConfigs s) as [[checks | e] s']; cbn;
     [|discriminate];
     rewrite rejectChecksH_filter; cbn;
     destruct (json_Marshal_checks (filter (CanRead abilities) checks))
       as [checksBytes [e|]]; cbn; discriminate).
Qed.

Lemma upsert_never_panics (abilities : Abilities) (r : Request)
      (check : option CheckConfig) (w : World S) :
  fst (upsert json_Unmarshal Validate abilities r check w) <> Panic.
Proof.
  unfold upsert. step_handler.
  destruct (Body r) as [bodyBytes | e]; cbn; [|discriminate].
  destruct (json_Unmarshal bodyBytes) as [newCheck | e]; cbn; [|discriminate].
  destruct (Validate newCheck) as [e|]; cbn; [discriminate|].
  destruct check as [found|]; cbn;
    [destruct (CanUpdate abilities newCheck)
    |destruct (CanCreate abilities newCheck)]; cbn; try discriminate;
    destruct (UpdateCheckConfig (store w) newCheck) as [[e|] s2]; cbn;
    discriminate.
Qed.

Lemma single_never_panics (abilities : Abilities) (r : Request) (s : S) :
  fst (exec (single abilities r) s) <> Panic.
Proof.
  unfold single. step_handler.
  destruct (Method r =? MethodDelete)%string eqn:Hdelete; cbn;
    [destruct (CanDelete abilities); cbn; [|discriminate]|];
    (destruct (Method r =? MethodGet)%string eqn:Hget; cbn;
     [rewrite ?orb_true_r; cbn|]).
  all: try (destruct (GetCheckConfigByName s (lookupVar (Vars r) "name"))
             as [[[found|] | e] s1]; cbn; try discriminate).
  all: try (destruct (json_Marshal_check found) as [checkBytes [e|]]; cbn;
            [discriminate|];
            destruct (CanRead abilities found); cbn; discriminate).
  all: destruct ((Method r =? MethodPut)%string
                 || (Method r =? MethodPost)%string); cbn.
  all: try apply upsert_never_panics.
  all: try (destruct (DeleteCheckConfigByName _ (lookupVar (Vars r) "name"))
             as [[e|] s2]; cbn; discriminate).
  all: discriminate.
Qed.

(** The run of a GET on one resource, path by path. *)
Lemma single_get_run (abilities : Abilities) (r : Request) (s : S) :
  Method r = MethodGet ->
  let name := lookupVar (Vars r) "name" in
  exec (single abilities r) s
  = match GetCheckConfigByName s name with
    | (Err e, s1) =>
        (Return, {| store := s1;
                    trace := [CallGetCheckConfigByName name;
                              HttpError e StatusInternalServerError] |})
    | (Ok None, s1) =>
        (Return, {| store := s1;
                    trace := [CallGetCheckConfigByName name; HttpNotFound] |})
    | (Ok (Some found), s1) =>
        match json_Marshal_check found with
        | (_, Some e) =>
            (Return, {| store := s1;
                        trace := [CallGetCheckConfigByName name;
                                  HttpError e StatusInternalServerError] |})
        | (checkBytes, None) =>
            if CanRead abilities found then
              (Next tt, {| store := s1;
                           trace := [CallGetCheckConfigByName name;
                                     AskCanRead found true;
                                     Fprintf checkBytes] |})
            else
              (Return, {| store := s1;
                          trace := [CallGetCheckConfigByName name;
                                    AskCanRead found false;
                                    UnauthorizedAccessToResource] |})
        end
    end.
Proof.
  intros Hm name. subst name.
  unfold single. step_handler. rewrite Hm. cbn.
  destruct (GetCheckConfigByName s (lookupVar (Vars r) "name"))
    as [[[found|] | e] s1]; cbn; try reflexivity.
  destruct (json_Marshal_check found) as [checkBytes [e|]]; cbn;
    try reflexivity.
  destruct (CanRead abilities found); reflexivity.
Qed.

(** A method outside the [switch] leaves [single] without any call. *)
Lemma single_other_run (abilities : Abilities) (r : Request) (s : S) :
  Method r <> MethodGet -> Method r <> MethodPut ->
  Method r <> MethodPost -> Method r <> MethodDelete ->
  exec (single abilities r) s = (Next tt, {| store := s; trace := [] |}).
Proof.
  intros Hg Hp Ho Hd.
  apply String.eqb_neq in Hg, Hp, Ho, Hd.
  unfold single. rewrite Hd, Hg, Hp, Ho. reflexivity.
Qed.

(** An upsert never looks the name up and never asks for the update
    capability: [check] is still nil when the [switch] is reached. *)
Lemma upsert_never_looks_up (abilities : Abilities) (r : Request) (s : S) :
  Method r = MethodPut \/ Method r = MethodPost ->
  existsb isLookup (trace (snd (exec (single abilities r) s))) = false
  /\ existsb isUpdateQuery (trace (snd (exec (single abilities r) s))) = false.
Proof.
  intros Hm. rewrite (single_upsert_run abilities r s Hm).
  destruct (Body r) as [bodyBytes | e]; [|auto].
  destruct (json_Unmarshal bodyBytes) as [newCheck | e]; [|auto].
  destruct (Validate newCheck) as [e|]; [auto|].
  destruct (CanCreate abilities newCheck); [|auto].
  cbn. destruct (fst (UpdateCheckConfig s newCheck)); auto.
Qed.

(** [single] sets no Content-Type header on any path. *)
Lemma single_never_sets_content_type (abilities : Abilities) (r : Request)
      (s : S) :
  existsb setsContentType (trace (snd (exec (single abilities r) s))) = false.
Proof.
  destruct (String.eqb_spec (Method r) MethodGet) as [Hg | Hg].
  { pose proof (single_get_run abilities r s Hg) as E. cbn zeta in E.
    rewrite E.
    destruct (GetCheckConfigByName s (lookupVar (Vars r) "name"))
      as [[[found|] | e] s1]; try reflexivity.
    destruct (json_Marshal_check found) as [checkBytes [e|]];
      try reflexivity.
    destruct (CanRead abilities found); reflexivity. }
  destruct (String.eqb_spec (Method r) MethodDelete) as [Hd | Hd].
  { pose proof (single_delete_run abilities r s Hd) as E. cbn zeta in E.
    rewrite E.
    destruct (CanDelete abilities); try reflexivity.
    destruct (GetCheckConfigByName s (lookupVar (Vars r) "name"))
      as [[[found|] | e] s1]; try reflexivity.
    destruct (DeleteCheckConfigByName s1 (lookupVar (Vars r) "name"))
      as [[e|] s2]; reflexivity. }
  destruct (String.eqb_spec (Method r) MethodPut) as [Hp | Hp];
    [|destruct (String.eqb_spec (Method r) MethodPost) as [Ho | Ho]].
  3: { now rewrite single_other_run. }
  all: rewrite (single_upsert_run abilities r s) by auto;
    destruct (Body r) as [bodyBytes | e]; try reflexivity;
    destruct (json_Unmarshal bodyBytes) as [newCheck | e]; try reflexivity;
    destruct (Validate newCheck) as [e|]; try reflexivity;
    destruct (CanCreate abilities newCheck); try reflexivity;
    cbn; destruct (fst (UpdateCheckConfig s newCheck)); reflexivity.
Qed.

(** [many], when all goes well, sets the Content-Type header before it
    calls [Fprintf]. *)
Lemma many_success_run (abilities : Abilities) (r : Request) (s s' : S)
      (checks : list CheckConfig) (checksBytes : string) :
  Method r = MethodGet ->
  CanList abilities = true ->
  GetCheckConfigs s = (Ok checks, s') ->
  json_Marshal_checks (filter (CanRead abilities) checks)
  = (checksBytes, None) ->
  exec (many abilities r) s
  = (Next tt,
     {| store := s';
        trace := [AskCanList true; CallGetCheckConfigs]
                 ++ map (fun c => AskCanRead c (CanRead abilities c)) checks
                 ++ [HeaderSet "Content-Type" "application/json";
                     Fprintf checksBytes] |}).
Proof.
  intros Hm Hl Hget Hjson.
  unfold many. step_handler. rewrite Hm, Hl. cbn. rewrite Hget. cbn.
  rewrite rejectChecksH_filter. cbn. rewrite Hjson. cbn.
  repeat rewrite <- app_assoc. reflexivity.
Qed.

End ControllerFacts.

(** ** Concrete runs *)

(** Scenario A, served: the caller reads a and c only. *)
Example list_scenario_A :
  toyServe {| CanList := true;
              CanRead := fun c => negb (hasName "b" c);
              CanCreate := fun _ => false; CanUpdate := fun _ => false;
              CanDelete := false |}
           Checks MethodGet (Ok "") [check_a; check_b; check_c]
  = Some (Next tt,
          {| store := [check_a; check_b; check_c];
             trace := [AskCanList true; CallGetCheckConfigs;
                       AskCanRead check_a true; AskCanRead check_b false;
                       AskCanRead check_c true;
                       HeaderSet "Content-Type" "application/json";
                       Fprintf "a,c"] |}).
Proof. reflexivity. Qed.

(** Scenario B: no check named x, the caller may create; the upsert goes
    through and x is in the store afterwards. *)
Example upsert_scenario_B :
  toyServe allowAll (ChecksName "x") MethodPut (Ok "x") [check_a]
  = Some (Return,
          {| store := [check_a; check_x];
             trace := [AskCanCreate check_x true;
                       CallUpdateCheckConfig check_x] |}).
Proof. reflexivity. Qed.

(** A POST on the collection is an upsert without a route variable. *)
Example collection_post_is_create :
  toyServe allButUpdate Checks MethodPost (Ok "x") [check_a]
  = Some (Return,
          {| store := [check_a; check_x];
             trace := [AskCanCreate check_x true;
                       CallUpdateCheckConfig check_x] |}).
Proof. reflexivity. Qed.

(** With the backend down, list and delete are answered with 500. *)
Example list_store_down :
  toyServe allowAll Checks MethodGet (Ok "") Down
  = Some (Return,
          {| store := Down;
             trace := [AskCanList true; CallGetCheckConfigs;
                       HttpError "store unavailable"
                                 StatusInternalServerError] |}).
Proof. reflexivity. Qed.

Example delete_store_down :
  toyServe allowAll (ChecksName "a") MethodDelete (Ok "") Down
  = Some (Return,
          {| store := Down;
             trace := [AskCanDelete true; CallGetCheckConfigByName "a";
                       HttpError "store unavailable"
                                 StatusInternalServerError] |}).
Proof. reflexivity. Qed.

(** No route serves PUT on the collection. *)
Example collection_put_has_no_route :
  toyServe allowAll Checks MethodPut (Ok "x") [check_a] = None.
Proof. reflexivity. Qed.

(** C1, on the code.  The store holds a check named y and the caller may
    create but not update.  PUT /checks/y with a valid body for y makes
    no lookup, asks for the create capability, never for update, and
    overwrites the stored check. *)
Theorem put_on_existing_name_asks_create :
  toyServe allButUpdate (ChecksName "y") MethodPut (Ok "y") [check_y_old]
  = Some (Return,
          {| store := [check_y];
             trace := [AskCanCreate check_y true;
                       CallUpdateCheckConfig check_y] |}).
Proof. reflexivity. Qed.

(** C9, on the code.  GET /checks/a for a stored check the caller may
    read writes the body and sets no Content-Type header. *)
Theorem get_one_sets_no_content_type :
  toyServe allowAll (ChecksName "a") MethodGet (Ok "") [check_a]
  = Some (Next tt,
          {| store := [check_a];
             trace := [CallGetCheckConfigByName "a";
                       AskCanRead check_a true;
                       Fprintf "a"] |})
  /\ existsb setsContentType
       [CallGetCheckConfigByName "a"; AskCanRead check_a true; Fprintf "a"]
     = false.
Proof. split; reflexivity. Qed.

(** C2, as stated, fails: a caller with the delete capability who
    deletes a name the store does not have gets a lookup and a 404, and
    no delete call reaches the store. *)
Lemma delete_of_missing_name_is_404 :
  CanDelete allowAll = true
  /\ toyServe allowAll (ChecksName "missing") MethodDelete (Ok "")
              ([] : MemStore)
     = Some (Return,
             {| store := [];
                trace := [AskCanDelete true;
                          CallGetCheckConfigByName "missing";
                          HttpNotFound] |})
  /\ ~ deletesWithoutExistenceCheck
       [AskCanDelete true; CallGetCheckConfigByName "missing"; HttpNotFound].
Proof.
  repeat split. intros [Hlookup _]. discriminate Hlookup.
Qed.

(** C5, on the code.  Scenario C: the store holds a check named y and
    the caller may not update.  The upsert of y asks for the create
    capability, never for update, is not refused, and writes: the stored
    check is replaced. *)
Theorem scenario_C_overwrites_the_check :
  find (hasName "y") [check_y_old] = Some check_y_old
  /\ CanUpdate allButUpdate check_y = false
  /\ toyServe allButUpdate (ChecksName "y") MethodPut (Ok "y") [check_y_old]
     = Some (Return,
             {| store := [check_y];
                trace := [AskCanCreate check_y true;
                          CallUpdateCheckConfig check_y] |})
  /\ existsb isStoreWrite
       [AskCanCreate check_y true; CallUpdateCheckConfig check_y] = true
  /\ ~ In UnauthorizedAccessToResource
       [AskCanCreate check_y true; CallUpdateCheckConfig check_y]
  /\ [check_y] <> [check_y_old].
Proof.
  repeat split; try discriminate.
  intros Hin. cbn in Hin. intuition discriminate.
Qed.


Lemma many_denied_without_store_access_witness :
  Method list_ = MethodGet
  /\ CanList denyAll = false
  /\ exec (toyMany denyAll list_) [check_a]
     = (Return, {| store := [check_a];
                   trace := [AskCanList false;
                             UnauthorizedAccessToResource] |}).
Proof.
  split; [reflexivity | split; [reflexivity|]].
  apply (@many_denied_without_store_access MemStore _ toyMarshal_checks
           denyAll list_ [check_a]); reflexivity.
Defined.

Lemma invalid_body_stops_upsert_witness :
  exec (toySingle allowAll (put_ "z" "")) [check_a]
  = (Return, {| store := [check_a];
                trace := [HttpError "unexpected end of JSON input"
                                    StatusBadRequest] |})
  /\ exec (toySingle allowAll (put_ "z" "!z")) [check_a]
     = (Return, {| store := [check_a];
                   trace := [HttpError "check is invalid"
                                       StatusBadRequest] |}).
Proof.
  split.
  - apply (@invalid_body_stops_upsert MemStore _ toyMarshal_check
             toyUnmarshal toyValidate allowAll (put_ "z" "") [check_a] ""
             "unexpected end of JSON input");
      [left; reflexivity | reflexivity | left; reflexivity].
  - apply (@invalid_body_stops_upsert MemStore _ toyMarshal_check
             toyUnmarshal toyValidate allowAll (put_ "z" "!z") [check_a] "!z"
             "check is invalid");
      [left; reflexivity | reflexivity
      | right; exists {| Name := "z"; Payload := "invalid" |};
        split; reflexivity].
Defined.


Lemma upsert_ignores_path_name_witness :
  Name check_x <> "z"
  /\ exec (toySingle allowAll (put_ "z" "x")) [check_a]
     = (Return, {| store := [check_a; check_x];
                   trace := [AskCanCreate check_x true;
                             CallUpdateCheckConfig check_x] |})
  /\ exec (toySingle allowAll (put_ "z" "x")) [check_a]
     = exec (toySingle allowAll (put_ "x" "x")) [check_a].
Proof.
  split; [discriminate|].
  pose proof (@upsert_ignores_path_name MemStore _ toyMarshal_check
                toyUnmarshal toyValidate allowAll (put_ "z" "x") [check_a]
                (or_introl eq_refl)) as [Hvars Hrun].
  split.
  - apply (Hrun "x" check_x); reflexivity.
  - symmetry. apply (Hvars [("name", "x")]).
Defined.

Lemma denied_request_does_not_write_witness :
  exec (toySingle denyAll (put_ "y" "y")) [check_y_old]
  = (Return, {| store := [check_y_old];
                trace := [AskCanCreate check_y false;
                          UnauthorizedAccessToResource] |})
  /\ store (snd (exec (toySingle denyAll (put_ "y" "y")) [check_y_old]))
     = [check_y_old]
  /\ existsb isStoreWrite
       (trace (snd (exec (toySingle denyAll (put_ "y" "y")) [check_y_old])))
     = false.
Proof.
  split; [reflexivity|].
  apply (proj1 (@denied_request_does_not_write MemStore _ toyMarshal_check
                  toyUnmarshal toyValidate denyAll (put_ "y" "y")
                  [check_y_old] (or_introl eq_refl))).
  left. reflexivity.
Defined.

Lemma delete_looks_up_first_witness :
  exec (toySingle allowAll (delete_ "a")) [check_a; check_b]
  = (Return, {| store := [check_b];
                trace := [AskCanDelete true;
                          CallGetCheckConfigByName "a";
                          CallDeleteCheckConfigByName "a"] |})
  /\ exec (toySingle allowAll (delete_ "c")) [check_a; check_b]
     = (Return, {| store := [check_a; check_b];
                   trace := [AskCanDelete true;
                             CallGetCheckConfigByName "c";
                             HttpNotFound] |}).
Proof.
  split.
  - exact (@delete_looks_up_first MemStore _ toyMarshal_check toyUnmarshal
             toyValidate allowAll (delete_ "a") [check_a; check_b]
             eq_refl eq_refl).
  - exact (@delete_looks_up_first MemStore _ toyMarshal_check toyUnmarshal
             toyValidate allowAll (delete_ "c") [check_a; check_b]
             eq_refl eq_refl).
Defined.

Lemma many_goes_on_after_marshal_error_witness :
  failingMarshal_checks (filter (CanRead allowAll) [check_a])
  = ("", Some "json: unsupported value")
  /\ exec (many failingMarshal_checks allowAll list_) [check_a]
     = (Next tt,
        {| store := [check_a];
           trace := [AskCanList true; CallGetCheckConfigs;
                     AskCanRead check_a true;
                     HttpError "json: unsupported value"
                               StatusInternalServerError;
                     HeaderSet "Content-Type" "application/json";
                     Fprintf ""] |}).
Proof.
  split; [reflexivity|].
  apply (@many_goes_on_after_marshal_error MemStore _ failingMarshal_checks
           allowAll list_ [check_a] [check_a] [check_a] ""
           "json: unsupported value"); reflexivity.
Defined.

(** ** Further properties of the filter *)

(** X1.  Filtering twice, first by [p] and then by [q], leaves what one
    pass with both predicates leaves; in particular a second pass with
    the same predicate changes nothing. *)
Theorem rejectChecks_twice (p q : CheckConfig -> bool)
        (records : list CheckConfig) :
  match rejectChecks (fun r (t : unit) => (p r, t)) records tt with
  | Some (kept, _) => rejectChecks (fun r (t : unit) => (q r, t)) kept tt
  | None => None
  end
  = rejectChecks (fun r (t : unit) => (p r && q r, t)) records tt
  /\ match rejectChecks (fun r (t : unit) => (p r, t)) records tt with
     | Some (kept, _) => rejectChecks (fun r (t : unit) => (p r, t)) kept tt
     | None => None
     end
     = rejectChecks (fun r (t : unit) => (p r, t)) records tt.
Proof.
  assert (forall (f : CheckConfig -> bool) l,
             filterS (fun r (t : unit) => (f r, t)) l tt = (filter f l, tt))
    as Hpure.
  { intros f l. induction l as [|r rest IH]; simpl; [reflexivity|].
    rewrite IH. now destruct (f r). }
  repeat rewrite rejectChecks_filterS. repeat rewrite Hpure.
  repeat rewrite rejectChecks_filterS. repeat rewrite Hpure.
  split; f_equal; f_equal.
  - induction records as [|r rest IH]; simpl; [reflexivity|].
    destruct (p r); simpl; [destruct (q r)|]; now rewrite IH.
  - induction records as [|r rest IH]; simpl; [reflexivity|].
    destruct (p r) eqn:Hp; simpl; [rewrite Hp|]; now rewrite IH.
Qed.

(** ** Further properties of the handlers *)

Ltac unfold_handlers := unfold many, single, upsert, Register.

Section ControllerInvariants.

Context {S : Type} `{Store S}.

Variable json_Marshal_check : CheckConfig -> string * option error.
Variable json_Marshal_checks : list CheckConfig -> string * option error.
Variable json_Unmarshal : string -> result CheckConfig.
Variable Validate : CheckConfig -> option error.

Local Abbreviation many := (many json_Marshal_checks).
Local Abbreviation single :=
  (single json_Marshal_check json_Unmarshal Validate).
Local Abbreviation Register :=
  (Register json_Marshal_check json_Marshal_checks json_Unmarshal Validate).

(** The run of [many], path by path. *)
Lemma many_get_run (abilities : Abilities) (r : Request) (s : S) :
  Method r = MethodGet ->
  exec (many abilities r) s
  = if CanList abilities then
      match GetCheckConfigs s with
      | (Err e, s1) =>
          (Return, {| store := s1;
                      trace := [AskCanList true; CallGetCheckConfigs;
                                HttpError e StatusInternalServerError] |})
      | (Ok checks, s1) =>
          let (checksBytes, err) :=
            json_Marshal_checks (filter (CanRead abilities) checks) in
          (Next tt,
           {| store := s1;
              trace := [AskCanList true; CallGetCheckConfigs]
                       ++ map (fun c => AskCanRead c (CanRead abilities c))
                              checks
                       ++ match err with
                          | Some e => [HttpError e StatusInternalServerError]
                          | None => []
                          end
                       ++ [HeaderSet "Content-Type" "application/json";
                           Fprintf checksBytes] |})
      end
    else
      (Return, {| store := s;
                  trace := [AskCanList false;
                            UnauthorizedAccessToResource] |}).
Proof.
  intros Hm. unfold_handlers. step_handler. rewrite Hm. cbn.
  destruct (CanList abilities); cbn; [|reflexivity].
  destruct (GetCheckConfigs s) as [[checks | e] s1]; cbn; [|reflexivity].
  rewrite rejectChecksH_filter. cbn.
  destruct (json_Marshal_checks (filter (CanRead abilities) checks))
    as [checksBytes [e|]]; cbn; repeat rewrite <- app_assoc; reflexivity.
Qed.

(** Splits a goal about a run of [single] by the method of the request
    and replaces the run by its path-by-path form. *)
Ltac single_by_method abilities r s :=
  let Hg := fresh "Hget" in
  let Hd := fresh "Hdelete" in
  let Hp := fresh "Hput" in
  let Ho := fresh "Hpost" in
  let E := fresh "E" in
  destruct (String.eqb_spec (Method r) MethodGet) as [Hg | Hg];
  [ pose proof (@single_get_run S _ json_Marshal_check json_Unmarshal
                  Validate abilities r s Hg) as E;
    cbn zeta in E; rewrite E; clear E
  | destruct (String.eqb_spec (Method r) MethodDelete) as [Hd | Hd];
    [ pose proof (@single_delete_run S _ json_Marshal_check json_Unmarshal
                    Validate abilities r s Hd) as E;
      cbn zeta in E; rewrite E; clear E
    | destruct (String.eqb_spec (Method r) MethodPut) as [Hp | Hp];
      [ rewrite (@single_upsert_run S _ json_Marshal_check json_Unmarshal
                   Validate abilities r s (or_introl Hp))
      | destruct (String.eqb_spec (Method r) MethodPost) as [Ho | Ho];
        [ rewrite (@single_upsert_run S _ json_Marshal_check json_Unmarshal
                     Validate abilities r s (or_intror Ho))
        | rewrite (@single_other_run S _ json_Marshal_check json_Unmarshal
                     Validate abilities r s Hg Hp Ho Hd) ] ] ] ].

(** Takes the collaborators' answers apart, one [match] at a time. *)
Ltac split_answers :=
  repeat match goal with
         | |- context [match ?x with _ => _ end] => destruct x eqn:?
         end.

(** X7.  Whatever the request, [single] makes at most one call on the
    response writer: an answer is never followed by a second status, a
    header or more body. *)
Theorem single_answers_once (abilities : Abilities) (r : Request) (s : S) :
  (length (filter isResponseCall (trace (snd (exec (single abilities r) s))))
   <= 1)%nat.
Proof.
  single_by_method abilities r s; split_answers; cbn; lia.
Qed.

Ltac absurd_membership Hin :=
  cbn in Hin;
  repeat (destruct Hin as [Hin | Hin]; [discriminate Hin|]);
  contradiction.

(** X8.  [single] answers unauthorized exactly when one of its
    capability queries was answered with "no".  The refusal then comes
    right after the refused query and is the last entry of the run: the
    handler returns at once, and nothing before the refused query was a
    write on the store or a call on the response writer. *)
Theorem single_unauthorized_iff_denied (abilities : Abilities) (r : Request)
        (s : S) :
  let out := exec (single abilities r) s in
  (existsb isDenial (trace (snd out)) = true
   <-> In UnauthorizedAccessToResource (trace (snd out)))
  /\ (In UnauthorizedAccessToResource (trace (snd out)) ->
      fst out = Return
      /\ exists before query,
          trace (snd out) = before ++ [query; UnauthorizedAccessToResource]
          /\ isDenial query = true
          /\ existsb isStoreWrite before = false
          /\ existsb isResponseCall before = false).
Proof.
  cbn zeta.
  single_by_method abilities r s; split_answers; cbn [fst snd trace];
    (split; [split|]);
    try reflexivity; try discriminate;
    try (intros Hin; absurd_membership Hin);
    try (intros _; cbn; now auto).
  all: intros _; split; [reflexivity|].
  - exists [CallGetCheckConfigByName (lookupVar (Vars r) "name")].
    eexists. repeat split; reflexivity.
  - exists []. eexists. repeat split; reflexivity.
  - exists []. eexists. repeat split; reflexivity.
  - exists []. eexists. repeat split; reflexivity.
Qed.

(** X9.  The store's update is only ever called from a PUT or a POST,
    with the check decoded from the request body, after that check has
    passed its own validation and the create capability has been granted
    for it. *)
Theorem update_call_provenance (abilities : Abilities) (r : Request)
        (s : S) (c : CheckConfig) :
  In (CallUpdateCheckConfig c) (trace (snd (exec (single abilities r) s))) ->
  (Method r = MethodPut \/ Method r = MethodPost)
  /\ exists bodyBytes,
      Body r = Ok bodyBytes
      /\ json_Unmarshal bodyBytes = Ok c
      /\ Validate c = None
      /\ CanCreate abilities c = true.
Proof.
  single_by_method abilities r s; split_answers; intros Hin;
    try (absurd_membership Hin); cbn in Hin.
  all: destruct Hin as [Hin | [Hin | Hin]]; try discriminate Hin;
    try (absurd_membership Hin).
  all: injection Hin as <-; split; [auto|]; eexists; repeat split; eauto.
Qed.

(** X10.  The store's delete is only ever called from a DELETE by a
    caller with the delete capability, for the name in the path, and
    after the lookup of that name has found a resource. *)
Theorem delete_call_provenance (abilities : Abilities) (r : Request)
        (s : S) (name : string) :
  In (CallDeleteCheckConfigByName name)
     (trace (snd (exec (single abilities r) s))) ->
  Method r = MethodDelete
  /\ CanDelete abilities = true
  /\ name = lookupVar (Vars r) "name"
  /\ exists found s1,
      GetCheckConfigByName s name = (Ok (Some found), s1).
Proof.
  single_by_method abilities r s; split_answers; intros Hin;
    try (absurd_membership Hin); cbn in Hin.
  all: destruct Hin as [Hin | [Hin | [Hin | Hin]]]; try discriminate Hin;
    try (absurd_membership Hin); try contradiction.
  all: injection Hin as <-; repeat split; auto; eauto.
Qed.

(** X11.  [single] calls [fmt.Fprintf] only on a GET, and the format
    string it passes is the serialization of the resource the lookup
    found, which the caller has been granted to read.  What [fmt] makes
    of that format string is not part of the statement. *)
Theorem single_fprintf_provenance (abilities : Abilities) (r : Request)
        (s : S) (format : string) :
  In (Fprintf format) (trace (snd (exec (single abilities r) s))) ->
  Method r = MethodGet
  /\ exists found s1,
      GetCheckConfigByName s (lookupVar (Vars r) "name")
      = (Ok (Some found), s1)
      /\ json_Marshal_check found = (format, None)
      /\ CanRead abilities found = true.
Proof.
  single_by_method abilities r s; split_answers; intros Hin;
    try (absurd_membership Hin); cbn in Hin.
  all: destruct Hin as [Hin | [Hin | [Hin | Hin]]]; try discriminate Hin;
    try contradiction.
  all: injection Hin as <-; split; [auto|]; do 2 eexists; repeat split; eauto.
Qed.

(** X15.  One request to [single] makes at most one lookup and at most
    one write on the store, two store calls at most. *)
Theorem single_store_calls_bounded (abilities : Abilities) (r : Request)
        (s : S) :
  let t := trace (snd (exec (single abilities r) s)) in
  (length (filter isLookup t) <= 1)%nat
  /\ (length (filter isStoreWrite t) <= 1)%nat
  /\ (length (filter isStoreCall t) <= 2)%nat.
Proof.
  cbn zeta.
  single_by_method abilities r s; split_answers; cbn; lia.
Qed.

(** X12.  A DELETE by a caller without the delete capability is refused
    before anything else happens: the answer and the trace are the same
    for every store and every name, so the refusal does not tell whether
    the name exists. *)
Theorem delete_denied_before_lookup (abilities : Abilities) (r : Request)
        (s : S) :
  Method r = MethodDelete ->
  CanDelete abilities = false ->
  exec (single abilities r) s
  = (Return, {| store := s;
                trace := [AskCanDelete false;
                          UnauthorizedAccessToResource] |}).
Proof.
  intros Hm Hdel.
  pose proof (@single_delete_run S _ json_Marshal_check json_Unmarshal
                Validate abilities r s Hm) as E.
  cbn zeta in E. rewrite E, Hdel. reflexivity.
Qed.

(** X13.  On a GET of one resource a failing lookup is answered with
    500 and the store's message.  A found resource is serialized before
    the read capability is asked for: when the serialization fails the
    answer is 500 with the serializer's message, whatever the caller may
    read, and [CanRead] is not queried. *)
Theorem get_failures_precede_read_check (abilities : Abilities)
        (r : Request) (s s1 : S) (e : error) :
  Method r = MethodGet ->
  let name := lookupVar (Vars r) "name" in
  (GetCheckConfigByName s name = (Err e, s1) ->
   exec (single abilities r) s
   = (Return, {| store := s1;
                 trace := [CallGetCheckConfigByName name;
                           HttpError e StatusInternalServerError] |}))
  /\ (forall found checkBytes,
         GetCheckConfigByName s name = (Ok (Some found), s1) ->
         json_Marshal_check found = (checkBytes, Some e) ->
         exec (single abilities r) s
         = (Return, {| store := s1;
                       trace := [CallGetCheckConfigByName name;
                                 HttpError e StatusInternalServerError] |})).
Proof.
  intros Hm name. subst name.
  pose proof (@single_get_run S _ json_Marshal_check json_Unmarshal
                Validate abilities r s Hm) as E.
  cbn zeta in E. rewrite E. split.
  - intros Hget. now rewrite Hget.
  - intros found checkBytes Hget Hjson. now rewrite Hget, Hjson.
Qed.

(** X14.  An upsert whose body cannot be read is answered with 500, not
    400, and with the reader's message; nothing is decoded, no capability
    is queried and the store is not called. *)
Theorem unreadable_body_is_500 (abilities : Abilities) (r : Request)
        (s : S) (e : error) :
  Method r = MethodPut \/ Method r = MethodPost ->
  Body r = Err e ->
  exec (single abilities r) s
  = (Return, {| store := s;
                trace := [HttpError e StatusInternalServerError] |}).
Proof.
  intros Hm Hb.
  rewrite (@single_upsert_run S _ json_Marshal_check json_Unmarshal
             Validate abilities r s Hm), Hb.
  reflexivity.
Qed.

(** X3.  When the store fails to return the checks, the listing is
    answered with 500 and the store's message and the handler returns:
    no read capability is queried, no header is set and no body is
    written. *)
Theorem many_store_failure (abilities : Abilities) (r : Request)
        (s s1 : S) (e : error) :
  Method r = MethodGet ->
  CanList abilities = true ->
  GetCheckConfigs s = (Err e, s1) ->
  exec (many abilities r) s
  = (Return, {| store := s1;
                trace := [AskCanList true; CallGetCheckConfigs;
                          HttpError e StatusInternalServerError] |}).
Proof.
  intros Hm Hl Hget. rewrite (many_get_run abilities r s Hm), Hl, Hget.
  reflexivity.
Qed.

(** X2.  On a listing that goes well, with the list capability
    granted, the checks returned by the store and the filtered
    collection serialized without error, the handler runs to its end
    and its calls are, in this order: the list query, one fetch of the
    collection, one read query for each returned check in the order of
    the store, the Content-Type header, and one [fmt.Fprintf] whose
    format string is the serialization of the checks the caller may
    read. *)
Theorem many_success_trace (abilities : Abilities) (r : Request) (s s1 : S)
        (checks : list CheckConfig) (checksBytes : string) :
  Method r = MethodGet ->
  CanList abilities = true ->
  GetCheckConfigs s = (Ok checks, s1) ->
  json_Marshal_checks (filter (CanRead abilities) checks)
  = (checksBytes, None) ->
  fst (exec (many abilities r) s) = Next tt
  /\ trace (snd (exec (many abilities r) s))
     = [AskCanList true; CallGetCheckConfigs]
       ++ map (fun c => AskCanRead c (CanRead abilities c)) checks
       ++ [HeaderSet "Content-Type" "application/json";
           Fprintf checksBytes].
Proof.
  intros Hm Hl Hget Hjson.
  rewrite (many_get_run abilities r s Hm), Hl, Hget, Hjson.
  split; reflexivity.
Qed.


(** X4.  Among the routed requests, only GET /checks by a caller with
    the list capability fetches the whole collection from the store. *)
Theorem listing_call_provenance (abilities : Abilities) (path : Path)
        (method : string) (body : result string) (h : H S unit) (s : S) :
  Register abilities path method body = Some h ->
  In CallGetCheckConfigs (trace (snd (exec h s))) ->
  path = Checks /\ method = MethodGet /\ CanList abilities = true.
Proof.
  assert (forall r, ~ In CallGetCheckConfigs
                      (trace (snd (exec (single abilities r) s)))) as Hsingle.
  { intros r.
    single_by_method abilities r s; split_answers; intros Hin;
      absurd_membership Hin. }
  unfold_handlers. fold single. fold many.
  intros Hreg Hin. destruct path as [|name].
  - destruct (String.eqb_spec method MethodGet) as [Hg | Hg].
    + injection Hreg as <-. repeat split; auto.
      rewrite many_get_run in Hin by (cbn; auto).
      destruct (CanList abilities); [reflexivity|absurd_membership Hin].
    + destruct (method =? MethodPost)%string; [|discriminate Hreg].
      injection Hreg as <-. now apply Hsingle in Hin.
  - destruct ((method =? MethodGet)%string || (method =? MethodPut)%string
              || (method =? MethodPost)%string
              || (method =? MethodDelete)%string); [|discriminate Hreg].
    injection Hreg as <-. now apply Hsingle in Hin.
Qed.

(** X6.  A routed GET never writes to the store, on the collection or
    on one resource. *)
Theorem routed_get_is_read_only (abilities : Abilities) (path : Path)
        (body : result string) (h : H S unit) (s : S) :
  Register abilities path MethodGet body = Some h ->
  existsb isStoreWrite (trace (snd (exec h s))) = false.
Proof.
  intros Hreg. destruct path as [|name]; cbn in Hreg;
    injection Hreg as <-.
  - rewrite many_get_run by reflexivity.
    destruct (CanList abilities); [|reflexivity].
    destruct (GetCheckConfigs s) as [[checks | e] s1]; [|reflexivity].
    destruct (json_Marshal_checks (filter (CanRead abilities) checks))
      as [checksBytes err].
    cbn. rewrite existsb_app.
    replace (existsb isStoreWrite
               (map (fun c => AskCanRead c (CanRead abilities c)) checks))
      with false
      by (symmetry; induction checks as [|c rest IH]; cbn; auto).
    destruct err; reflexivity.
  - pose proof (@single_get_run S _ json_Marshal_check json_Unmarshal
                  Validate abilities
                  {| Method := MethodGet; Vars := [("name", name)];
                     Body := body |} s eq_refl) as E.
    cbn zeta in E. rewrite E.
    split_answers; reflexivity.
Qed.

End ControllerInvariants.

(** ** The update command *)

Section UpdateCommandFacts.

Context {A Handler : Type} `{Client A Handler}.

Variable Opts : Type.
Variable newHandlerOpts : Opts.
Variable withHandler : Opts -> Handler -> Opts.
Variable administerQuestionnaire : Opts -> bool -> option error * Opts.
Variable Copy : Opts -> Handler -> Handler.
Variable ValidateHandler : Handler -> option error.

Local Abbreviation update :=
  (RunE (UpdateCommand newHandlerOpts withHandler administerQuestionnaire
                       Copy ValidateHandler)).

(** X16.  Called with no argument or with more than one, the command
    shows its help and succeeds: it does not contact the API, asks
    nothing and prints no result line. *)
Theorem update_wrong_arg_count (args : list string) (w : CliWorld A Handler) :
  length args <> 1%nat ->
  update args w = (None, {| client := client w; out := out w ++ [CmdHelp] |}).
Proof.
  intros Hlen. cbn. unfold UpdateCommand_RunE.
  apply Nat.eqb_neq in Hlen. rewrite Hlen. reflexivity.
Qed.

(** X17.  With one argument, each step that fails ends the command with
    that step's error and without the result line: a failed fetch before
    any question is asked, and a failed questionnaire or a handler that
    does not validate before anything is sent to the API. *)
Theorem update_returns_first_error (name : string) (a : A) (e : error) :
  let start := {| client := a; out := [] |} in
  (forall a1,
      FetchHandler a name = (Err e, a1) ->
      update [name] start
      = (Some e, {| client := a1; out := [ClientFetchHandler name] |}))
  /\ (forall a1 fetched opts',
         FetchHandler a name = (Ok fetched, a1) ->
         administerQuestionnaire (withHandler newHandlerOpts fetched) true
         = (Some e, opts') ->
         update [name] start
         = (Some e, {| client := a1;
                       out := [ClientFetchHandler name;
                               AdministerQuestionnaire true] |}))
  /\ (forall a1 fetched opts',
         FetchHandler a name = (Ok fetched, a1) ->
         administerQuestionnaire (withHandler newHandlerOpts fetched) true
         = (None, opts') ->
         ValidateHandler (Copy opts' fetched) = Some e ->
         update [name] start
         = (Some e, {| client := a1;
                       out := [ClientFetchHandler name;
                               AdministerQuestionnaire true] |}))
  /\ (forall a1 fetched opts' a3,
         FetchHandler a name = (Ok fetched, a1) ->
         administerQuestionnaire (withHandler newHandlerOpts fetched) true
         = (None, opts') ->
         ValidateHandler (Copy opts' fetched) = None ->
         CreateHandler a1 (Copy opts' fetched) = (Some e, a3) ->
         update [name] start
         = (Some e, {| client := a3;
                       out := [ClientFetchHandler name;
                               AdministerQuestionnaire true;
                               ClientCreateHandler (Copy opts' fetched)] |})).
Proof.
  cbn zeta. repeat split.
  - intros a1 Hf. cbn. unfold UpdateCommand_RunE. cbn. now rewrite Hf.
  - intros a1 fetched opts' Hf Hq. cbn. unfold UpdateCommand_RunE. cbn.
    rewrite Hf, Hq. reflexivity.
  - intros a1 fetched opts' Hf Hq Hv. cbn. unfold UpdateCommand_RunE. cbn.
    rewrite Hf, Hq, Hv. reflexivity.
  - intros a1 fetched opts' a3 Hf Hq Hv Hc. cbn. unfold UpdateCommand_RunE.
    cbn. rewrite Hf, Hq, Hv. cbn. rewrite Hc. reflexivity.
Qed.

Ltac split_steps :=
  repeat match goal with
         | |- context [match ?x with _ => _ end] => destruct x eqn:?; cbn
         | |- context [let (_, _) := ?x in _] => destruct x eqn:?; cbn
         end.

(** X18.  The command prints its result line OK exactly when it returns
    without an error after being given one argument. *)
Theorem update_prints_OK_iff_success (args : list string) (a : A) :
  let res := RunE (UpdateCommand newHandlerOpts withHandler
                          administerQuestionnaire Copy ValidateHandler)
                 args {| client := a; out := [] |} in
  In (Fprintln "OK") (out (snd res))
  <-> (fst res = None /\ length args = 1%nat).
Proof.
  cbn. unfold UpdateCommand_RunE.
  destruct (length args =? 1)%nat eqn:Hlen; cbn.
  - apply Nat.eqb_eq in Hlen. split_steps;
      (split; [intros Hin | intros [Hnone _]]);
      try discriminate Hnone; auto;
      try (repeat (destruct Hin as [Hin | Hin]; [discriminate Hin|]);
           contradiction).
  - apply Nat.eqb_neq in Hlen. split.
    + intros [Hin | []]. discriminate Hin.
    + intros [_ Hone]. contradiction.
Qed.

(** X19.  Whatever the command sends to the API has been built from the
    handler fetched under the name given as argument and from the
    answers of the questionnaire, and has passed the handler's own
    validation. *)
Theorem create_call_provenance (args : list string) (a : A)
        (sent : Handler) :
  In (ClientCreateHandler sent)
     (out (snd (RunE (UpdateCommand newHandlerOpts withHandler
                          administerQuestionnaire Copy ValidateHandler)
                  args {| client := a; out := [] |}))) ->
  exists name fetched a1 opts',
    args = [name]
    /\ FetchHandler a name = (Ok fetched, a1)
    /\ administerQuestionnaire (withHandler newHandlerOpts fetched) true
       = (None, opts')
    /\ sent = Copy opts' fetched
    /\ ValidateHandler sent = None.
Proof.
  cbn. unfold UpdateCommand_RunE.
  destruct args as [|name [|more rest]]; cbn;
    try (intros [Hin | []]; discriminate Hin).
  destruct (FetchHandler a name) as [[fetched | e] a1] eqn:Hf; cbn;
    [|intros [Hin | []]; discriminate Hin].
  destruct (administerQuestionnaire (withHandler newHandlerOpts fetched) true)
    as [[e|] opts'] eqn:Hq; cbn;
    [intros [Hin | [Hin | []]]; discriminate Hin|].
  destruct (ValidateHandler (Copy opts' fetched)) as [e|] eqn:Hv; cbn;
    [intros [Hin | [Hin | []]]; discriminate Hin|].
  destruct (CreateHandler a1 (Copy opts' fetched)) as [[e|] a3]; cbn;
    intros Hin;
    (destruct Hin as [Hin | [Hin | [Hin | Hin]]]; try discriminate Hin;
     [ injection Hin as <-; exists name, fetched, a1, opts'; auto
     | try contradiction;
       destruct Hin as [Hin | []]; discriminate Hin ]).
Qed.

End UpdateCommandFacts.

(** ** Concrete runs of the further properties *)

Ltac find_member := cbn; repeat (first [left; reflexivity | right]).

Lemma many_success_trace_witness :
  fst (exec (toyMany allButReadB list_) [check_a; check_b; check_c]) = Next tt
  /\ trace (snd (exec (toyMany allButReadB list_)
                     [check_a; check_b; check_c]))
     = [AskCanList true; CallGetCheckConfigs;
        AskCanRead check_a true; AskCanRead check_b false;
        AskCanRead check_c true;
        HeaderSet "Content-Type" "application/json";
        Fprintf "a,c"].
Proof.
  exact (@many_success_trace MemStore _ toyMarshal_checks allButReadB list_
           [check_a; check_b; check_c] [check_a; check_b; check_c]
           [check_a; check_b; check_c] "a,c"
           eq_refl eq_refl eq_refl eq_refl).
Defined.

Lemma many_store_failure_witness :
  exec (toyMany allowAll list_) Down
  = (Return, {| store := Down;
                trace := [AskCanList true; CallGetCheckConfigs;
                          HttpError "store unavailable"
                                    StatusInternalServerError] |}).
Proof.
  exact (@many_store_failure DownStore _ toyMarshal_checks allowAll list_
           Down Down "store unavailable" eq_refl eq_refl eq_refl).
Defined.

Lemma listing_call_provenance_witness :
  (Checks = Checks /\ MethodGet = MethodGet /\ CanList allowAll = true).
Proof.
  apply (@listing_call_provenance MemStore _ toyMarshal_check
           toyMarshal_checks toyUnmarshal toyValidate allowAll Checks
           MethodGet (Ok "") (toyMany allowAll list_) [check_a]).
  - reflexivity.
  - find_member.
Defined.


Lemma routed_get_is_read_only_witness :
  existsb isStoreWrite
    (trace (snd (exec (toySingle allowAll (get_ "a")) [check_a])))
  = false.
Proof.
  apply (@routed_get_is_read_only MemStore _ toyMarshal_check
           toyMarshal_checks toyUnmarshal toyValidate allowAll
           (ChecksName "a") (Ok "")).
  reflexivity.
Defined.

Lemma single_unauthorized_iff_denied_witness :
  fst (exec (toySingle denyAll (get_ "a")) [check_a]) = Return
  /\ exists before query,
      trace (snd (exec (toySingle denyAll (get_ "a")) [check_a]))
      = before ++ [query; UnauthorizedAccessToResource]
      /\ isDenial query = true
      /\ existsb isStoreWrite before = false
      /\ existsb isResponseCall before = false.
Proof.
  apply (proj2 (@single_unauthorized_iff_denied MemStore _ toyMarshal_check
                  toyUnmarshal toyValidate denyAll (get_ "a") [check_a])).
  find_member.
Defined.

Lemma update_call_provenance_witness :
  (Method (post_ "x") = MethodPut \/ Method (post_ "x") = MethodPost)
  /\ exists bodyBytes,
      Body (post_ "x") = Ok bodyBytes
      /\ toyUnmarshal bodyBytes = Ok check_x
      /\ toyValidate check_x = None
      /\ CanCreate allowAll check_x = true.
Proof.
  apply (@update_call_provenance MemStore _ toyMarshal_check toyUnmarshal
           toyValidate allowAll (post_ "x") [check_a] check_x).
  find_member.
Defined.

Lemma delete_call_provenance_witness :
  Method (delete_ "a") = MethodDelete
  /\ CanDelete allowAll = true
  /\ "a" = lookupVar (Vars (delete_ "a")) "name"
  /\ exists found s1,
      GetCheckConfigByName [check_a; check_b] "a" = (Ok (Some found), s1).
Proof.
  apply (@delete_call_provenance MemStore _ toyMarshal_check toyUnmarshal
           toyValidate allowAll (delete_ "a") [check_a; check_b] "a").
  find_member.
Defined.

Lemma single_fprintf_provenance_witness :
  Method (get_ "a") = MethodGet
  /\ exists found s1,
      GetCheckConfigByName [check_a] (lookupVar (Vars (get_ "a")) "name")
      = (Ok (Some found), s1)
      /\ toyMarshal_check found = ("a", None)
      /\ CanRead allowAll found = true.
Proof.
  apply (@single_fprintf_provenance MemStore _ toyMarshal_check toyUnmarshal
           toyValidate allowAll (get_ "a") [check_a] "a").
  find_member.
Defined.

Lemma delete_denied_before_lookup_witness :
  exec (toySingle denyAll (delete_ "a")) [check_a]
  = (Return, {| store := [check_a];
                trace := [AskCanDelete false;
                          UnauthorizedAccessToResource] |})
  /\ exec (toySingle denyAll (delete_ "missing")) [check_a]
     = (Return, {| store := [check_a];
                   trace := [AskCanDelete false;
                             UnauthorizedAccessToResource] |}).
Proof.
  split.
  - exact (@delete_denied_before_lookup MemStore _ toyMarshal_check
             toyUnmarshal toyValidate denyAll (delete_ "a") [check_a]
             eq_refl eq_refl).
  - exact (@delete_denied_before_lookup MemStore _ toyMarshal_check
             toyUnmarshal toyValidate denyAll (delete_ "missing") [check_a]
             eq_refl eq_refl).
Defined.

Lemma get_failures_precede_read_check_witness :
  exec (toySingle allowAll (get_ "a")) Down
  = (Return, {| store := Down;
                trace := [CallGetCheckConfigByName "a";
                          HttpError "store unavailable"
                                    StatusInternalServerError] |})
  /\ exec (single (fun _ => ("", Some "json: unsupported value"))
                  toyUnmarshal toyValidate denyAll (get_ "a")) [check_a]
     = (Return, {| store := [check_a];
                   trace := [CallGetCheckConfigByName "a";
                             HttpError "json: unsupported value"
                                       StatusInternalServerError] |}).
Proof.
  split.
  - exact (proj1 (@get_failures_precede_read_check DownStore _
                    toyMarshal_check toyUnmarshal toyValidate allowAll
                    (get_ "a") Down Down "store unavailable" eq_refl)
                 eq_refl).
  - exact (proj2 (@get_failures_precede_read_check MemStore _
                    (fun _ => ("", Some "json: unsupported value"))
                    toyUnmarshal toyValidate denyAll (get_ "a") [check_a]
                    [check_a] "json: unsupported value" eq_refl)
                 check_a "" eq_refl eq_refl).
Defined.

Lemma unreadable_body_is_500_witness :
  exec (toySingle allowAll
          {| Method := MethodPut; Vars := [("name", "a")];
             Body := Err "unexpected EOF" |}) [check_a]
  = (Return, {| store := [check_a];
                trace := [HttpError "unexpected EOF"
                                    StatusInternalServerError] |}).
Proof.
  exact (@unreadable_body_is_500 MemStore _ toyMarshal_check toyUnmarshal
           toyValidate allowAll
           {| Method := MethodPut; Vars := [("name", "a")];
              Body := Err "unexpected EOF" |} [check_a] "unexpected EOF"
           (or_introl eq_refl) eq_refl).
Defined.

Lemma update_wrong_arg_count_witness :
  RunE toyUpdate [] toyStart
  = (None, {| client := toyApi; out := [CmdHelp] |})
  /\ RunE toyUpdate ["mail"; "extra"] toyStart
     = (None, {| client := toyApi; out := [CmdHelp] |}).
Proof.
  split.
  - apply (@update_wrong_arg_count ToyApi ToyHandler _ string "" toyWithHandler
             toyQuestionnaire toyCopy toyValidateHandler [] toyStart).
    discriminate.
  - apply (@update_wrong_arg_count ToyApi ToyHandler _ string "" toyWithHandler
             toyQuestionnaire toyCopy toyValidateHandler ["mail"; "extra"]
             toyStart).
    discriminate.
Defined.

Lemma update_returns_first_error_witness :
  RunE toyUpdate ["nobody"] toyStart
  = (Some "not found",
     {| client := toyApi; out := [ClientFetchHandler "nobody"] |})
  /\ RunE toyUpdate ["idle"] toyStart
     = (Some "interrupted",
        {| client := toyApi;
           out := [ClientFetchHandler "idle";
                   AdministerQuestionnaire true] |})
  /\ RunE toyUpdate ["blank"] toyStart
     = (Some "command must be set",
        {| client := toyApi;
           out := [ClientFetchHandler "blank";
                   AdministerQuestionnaire true] |})
  /\ RunE toyUpdate ["locked"] toyStart
     = (Some "forbidden",
        {| client := toyApi;
           out := [ClientFetchHandler "locked";
                   AdministerQuestionnaire true;
                   ClientCreateHandler ("locked", "true -v")] |}).
Proof.
  pose (thm := fun name e =>
          @update_returns_first_error ToyApi ToyHandler _ string ""
            toyWithHandler toyQuestionnaire toyCopy toyValidateHandler
            name toyApi e).
  split; [|split; [|split]].
  - exact (proj1 (thm "nobody" "not found") toyApi eq_refl).
  - exact (proj1 (proj2 (thm "idle" "interrupted"))
                 toyApi ("idle", "quit") "quit" eq_refl eq_refl).
  - exact (proj1 (proj2 (proj2 (thm "blank" "command must be set")))
                 toyApi ("blank", "") " -v" eq_refl eq_refl eq_refl).
  - exact (proj2 (proj2 (proj2 (thm "locked" "forbidden")))
                 toyApi ("locked", "true") "true -v" toyApi
                 eq_refl eq_refl eq_refl eq_refl).
Defined.

Lemma update_prints_OK_iff_success_witness :
  fst (RunE toyUpdate ["mail"] toyStart) = None
  /\ length ["mail"] = 1%nat.
Proof.
  apply (@update_prints_OK_iff_success ToyApi ToyHandler _ string ""
           toyWithHandler toyQuestionnaire toyCopy toyValidateHandler
           ["mail"] toyApi).
  find_member.
Defined.

Lemma create_call_provenance_witness :
  exists name fetched a1 opts',
    ["mail"] = [name]
    /\ FetchHandler toyApi name = (Ok fetched, a1)
    /\ toyQuestionnaire (toyWithHandler "" fetched) true = (None, opts')
    /\ ("mail", "sendmail -v") = toyCopy opts' fetched
    /\ toyValidateHandler ("mail", "sendmail -v") = None.
Proof.
  apply (@create_call_provenance ToyApi ToyHandler _ string ""
           toyWithHandler toyQuestionnaire toyCopy toyValidateHandler
           ["mail"] toyApi ("mail", "sendmail -v")).
  find_member.
Defined.

(** The command on the toy API, from the argument to the result line. *)
Example update_mail :
  RunE toyUpdate ["mail"] toyStart
  = (None,
     {| client := [("mail", "sendmail -v"); ("locked", "true");
                   ("idle", "quit"); ("blank", "")];
        out := [ClientFetchHandler "mail"; AdministerQuestionnaire true;
                ClientCreateHandler ("mail", "sendmail -v");
                Fprintln "OK"] |}).
Proof. reflexivity. Qed.
